(** * bpf/lib/utils.h: the [min] / [max] macro family

    A shallow embedding of the comparison macros of [bpf/lib/utils.h]
    ([__min], [__max], [min], [max], [min_t], [max_t], [SIMPLE_MIN]) and the
    properties their users rely on.

    The macros are generic over C scalar types.  The embedding covers the
    integer types of the BPF target (an LP64 data model: 8-bit [char],
    16-bit [short], 32-bit [int], 64-bit [long] and [long long]); a value
    is the mathematical integer it denotes, and every conversion between
    types is written out as a reduction modulo [2 ^ width].

    Operands of a macro are C expressions: they have a static type (what
    [typeof] yields) and, when evaluated, may change the program state
    before they deliver their value.  An operand is therefore a state
    transformer in a small state monad.  Operands do not mention the
    macros' own locals [_x] and [_y]. *)

From Stdlib Require Import ZArith List Bool Lia.
Import ListNotations.

Open Scope Z_scope.

(** ** C integer types *)

Module CType.

Inductive signedness : Set := Signed | Unsigned.

Inductive irank : Set := Char | Short | Int | Long | LongLong.

Record ctype : Set := Ctype { sgn : signedness; rank : irank }.

Definition signedness_eqb (a b : signedness) : bool :=
  match a, b with
  | Signed, Signed | Unsigned, Unsigned => true
  | _, _ => false
  end.

(** The conversion rank of C11 6.3.1.1, as a number. *)
Definition rank_ord (r : irank) : Z :=
  match r with
  | Char => 1 | Short => 2 | Int => 3 | Long => 4 | LongLong => 5
  end.

Definition ctype_eqb (a b : ctype) : bool :=
  signedness_eqb (sgn a) (sgn b) && (rank_ord (rank a) =? rank_ord (rank b)).

(** Widths of the BPF target. *)
Definition width_of_rank (r : irank) : Z :=
  match r with
  | Char => 8 | Short => 16 | Int => 32 | Long => 64 | LongLong => 64
  end.

Definition width (t : ctype) : Z := width_of_rank (rank t).

Definition modulus (t : ctype) : Z := 2 ^ width t.

Definition min_of (t : ctype) : Z :=
  match sgn t with
  | Signed => - 2 ^ (width t - 1)
  | Unsigned => 0
  end.

Definition max_of (t : ctype) : Z :=
  match sgn t with
  | Signed => 2 ^ (width t - 1) - 1
  | Unsigned => 2 ^ width t - 1
  end.

Definition in_range (t : ctype) (v : Z) : Prop := min_of t <= v <= max_of t.

(** Conversion of an integer value to type [t] (C11 6.3.1.3): the value is
    kept when [t] can represent it, and reduced modulo [2 ^ width t]
    otherwise (for a signed [t] this is what clang and gcc define). *)
Definition wrap (t : ctype) (v : Z) : Z :=
  match sgn t with
  | Unsigned => v mod modulus t
  | Signed => (v - min_of t) mod modulus t + min_of t
  end.

(** [represents t u]: every value of [u] is a value of [t]. *)
Definition represents (t u : ctype) : bool :=
  (min_of t <=? min_of u) && (max_of u <=? max_of t).

Definition int_t : ctype := Ctype Signed Int.
Definition uint_t : ctype := Ctype Unsigned Int.

(** The fixed-width names the BPF code uses. *)
Definition s8 : ctype := Ctype Signed Char.
Definition u8 : ctype := Ctype Unsigned Char.
Definition s16 : ctype := Ctype Signed Short.
Definition u16 : ctype := Ctype Unsigned Short.
Definition s32 : ctype := Ctype Signed Int.
Definition u32 : ctype := Ctype Unsigned Int.
Definition s64 : ctype := Ctype Signed LongLong.
Definition u64 : ctype := Ctype Unsigned LongLong.

(** Integer promotions (C11 6.3.1.1p2). *)
Definition promote (t : ctype) : ctype :=
  if rank_ord (rank t) <? rank_ord Int
  then if represents int_t t then int_t else uint_t
  else t.

(** Usual arithmetic conversions on two integer types (C11 6.3.1.8): the
    common type in which a binary operator works. *)
Definition arith_conv (a b : ctype) : ctype :=
  let a := promote a in
  let b := promote b in
  if ctype_eqb a b then a
  else if signedness_eqb (sgn a) (sgn b)
  then if rank_ord (rank a) <? rank_ord (rank b) then b else a
  else
    let (s, u) := match sgn a with Signed => (a, b) | Unsigned => (b, a) end in
    if rank_ord (rank s) <=? rank_ord (rank u) then u
    else if represents s u then s
    else Ctype Unsigned (rank s).

(** A typed value: the content of a C object of integer type. *)
Record cval : Set := Cval { ty : ctype; val : Z }.

(** [a < b] *)
Definition c_lt (a b : cval) : bool :=
  let t := arith_conv (ty a) (ty b) in
  wrap t (val a) <? wrap t (val b).

(** [a > b] *)
Definition c_gt (a b : cval) : bool :=
  let t := arith_conv (ty a) (ty b) in
  wrap t (val a) >? wrap t (val b).

(** [c ? a : b]: the selected operand, converted to the common type of
    both (C11 6.5.15p5). *)
Definition c_cond (c : bool) (a b : cval) : cval :=
  let t := arith_conv (ty a) (ty b) in
  Cval t (wrap t (val (if c then a else b))).

End CType.

Import CType.

(** ** Operand expressions *)

Module Expr.

(** Computations that read and update a program state of type [state]. *)
Definition M (state A : Type) : Type := state -> state * A.

Definition ret {state A : Type} (a : A) : M state A := fun s => (s, a).

Definition bind {state A B : Type} (m : M state A) (k : A -> M state B)
  : M state B :=
  fun s => let (s', a) := m s in k a s'.

(** A C expression of integer type: its static type, and its evaluation. *)
Record expr (state : Type) : Type :=
  Expr { typeof : ctype; eval : M state Z }.

Arguments Expr {state} _ _.
Arguments typeof {state} _.
Arguments eval {state} _ _.

End Expr.

Import Expr.

Notation "v <- m ;; k" := (bind m (fun v => k))
  (at level 61, m at next level, right associativity).

Module Utils.

Section Macros.

Context {state : Type}.

(** An integer constant, or any operand that only delivers the value [v]. *)
Definition lit (t : ctype) (v : Z) : expr state :=
  {| typeof := t; eval := ret v |}.

(** The cast expression [(t)(x)]. *)
Definition cast (t : ctype) (x : expr state) : expr state :=
  {| typeof := t; eval := v <- eval x ;; ret (wrap t v) |}.

(** The declaration [t _v = (e);] once [e] has delivered [v]: the
    initializer is converted to the declared type. *)
Definition init (t : ctype) (v : Z) : cval := Cval t (wrap t v).

(** [__min(t_x, t_y, x, y)].  The statement [(void) (&_x == &_y);] computes
    nothing: it is there for the build to compare the two pointer types. *)
Definition __min (t_x t_y : ctype) (x y : expr state) : expr state :=
  {| typeof := arith_conv t_x t_y;
     eval :=
       vx <- eval x ;;
       let _x := init t_x vx in
       vy <- eval y ;;
       let _y := init t_y vy in
       ret (val (c_cond (c_lt _x _y) _x _y)) |}.

(** [__max(t_x, t_y, x, y)] *)
Definition __max (t_x t_y : ctype) (x y : expr state) : expr state :=
  {| typeof := arith_conv t_x t_y;
     eval :=
       vx <- eval x ;;
       let _x := init t_x vx in
       vy <- eval y ;;
       let _y := init t_y vy in
       ret (val (c_cond (c_gt _x _y) _x _y)) |}.

(** [min(x, y)].  The operand of [typeof] is not evaluated: each argument
    is evaluated where [__min] initializes its local, and nowhere else. *)
Definition min (x y : expr state) : expr state :=
  __min (typeof x) (typeof y) x y.

(** [max(x, y)] *)
Definition max (x y : expr state) : expr state :=
  __max (typeof x) (typeof y) x y.

(** [min_t(t, x, y)] *)
Definition min_t (t : ctype) (x y : expr state) : expr state :=
  __min t t x y.

(** [max_t(t, x, y)] *)
Definition max_t (t : ctype) (x y : expr state) : expr state :=
  __max t t x y.

(** C leaves open which operand of [<] is evaluated first. *)
Inductive eval_order : Set := LeftToRight | RightToLeft.

(** The operands of [(x) < (y)], each evaluated once, in the order [o]. *)
Definition operands (o : eval_order) (x y : expr state)
  : M state (cval * cval) :=
  match o with
  | LeftToRight =>
      vx <- eval x ;; vy <- eval y ;;
      ret (Cval (typeof x) vx, Cval (typeof y) vy)
  | RightToLeft =>
      vy <- eval y ;; vx <- eval x ;;
      ret (Cval (typeof x) vx, Cval (typeof y) vy)
  end.

(** [SIMPLE_MIN(x, y)], that is [((x) < (y) ? (x) : (y))]: the comparison
    evaluates both operands, then the selected branch evaluates its operand
    again and converts it to the common type. *)
Definition SIMPLE_MIN (o : eval_order) (x y : expr state) : expr state :=
  let t := arith_conv (typeof x) (typeof y) in
  {| typeof := t;
     eval :=
       ab <- operands o x y ;;
       if c_lt (fst ab) (snd ab)
       then v <- eval x ;; ret (wrap t v)
       else v <- eval y ;; ret (wrap t v) |}.

End Macros.

End Utils.

Import Utils.

(** ** What is observed of an evaluation *)

Module Observation.

Section WithState.

Context {state : Type}.

(** An expression of type [t] delivers values of [t]. *)
Definition well_typed (x : expr state) : Prop :=
  forall s, in_range (typeof x) (snd (eval x s)).

(** Evaluating the expression leaves the state as it was. *)
Definition side_effect_free (x : expr state) : Prop :=
  forall s, fst (eval x s) = s.

(** A two-operand operation is total and pure: on side-effect-free operands
    it leaves the state alone and delivers a value of its type, and that
    type and value are determined by the types and values of the operands. *)
Definition total_pure (op : expr state -> expr state -> expr state) : Prop :=
  forall x y : expr state,
    side_effect_free x -> side_effect_free y ->
    (forall s : state,
        exists v : Z,
          eval (op x y) s = (s, v) /\ in_range (typeof (op x y)) v) /\
    (forall (x' y' : expr state) (s s' : state),
        side_effect_free x' -> side_effect_free y' ->
        typeof x' = typeof x -> typeof y' = typeof y ->
        snd (eval x' s') = snd (eval x s) ->
        snd (eval y' s') = snd (eval y s) ->
        typeof (op x' y') = typeof (op x y) /\
        snd (eval (op x' y') s') = snd (eval (op x y) s)).

(** The two operand positions of a macro invocation. *)
Inductive operand : Set := OpX | OpY.

Definition operand_eqb (a b : operand) : bool :=
  match a, b with
  | OpX, OpX | OpY, OpY => true
  | _, _ => false
  end.

(** An operand made observable: next to whatever [x] does to the state,
    each evaluation of it is recorded in a log, under the name [l]. *)
Definition observed (l : operand) (x : expr state)
  : expr (list operand * state) :=
  {| typeof := typeof x;
     eval := fun ls =>
       let (s', v) := eval x (snd ls) in ((l :: fst ls, s'), v) |}.

(** How many times the side effect of operand [l] has occurred. *)
Definition occurrences (l : operand) (log : list operand) : nat :=
  length (filter (operand_eqb l) log).

End WithState.

End Observation.

Import Observation.

(** ** Facts about the integer types *)

Module CTypeFacts.

Ltac by_type t :=
  destruct t as [[|] [| | | |]];
  unfold in_range, wrap, modulus, min_of, max_of, width in *;
  cbn [sgn rank width_of_rank] in *.

Lemma modulus_pos (t : ctype) : 0 < modulus t.
Proof. by_type t; lia. Qed.

Lemma range_span (t : ctype) : max_of t - min_of t = modulus t - 1.
Proof. by_type t; lia. Qed.

Lemma wrap_in_range (t : ctype) (v : Z) : in_range t (wrap t v).
Proof.
  pose proof (modulus_pos t) as Hm.
  pose proof (range_span t) as Hs.
  unfold in_range, wrap.
  destruct (sgn t) eqn:Hsg.
  - pose proof (Z.mod_pos_bound (v - min_of t) (modulus t) Hm). lia.
  - pose proof (Z.mod_pos_bound v (modulus t) Hm).
    assert (min_of t = 0) by (unfold min_of; now rewrite Hsg). lia.
Qed.

Lemma wrap_id (t : ctype) (v : Z) : in_range t v -> wrap t v = v.
Proof.
  intros Hv.
  pose proof (range_span t) as Hs.
  unfold in_range in Hv. unfold wrap.
  destruct (sgn t) eqn:Hsg.
  - rewrite Z.mod_small by lia. lia.
  - assert (min_of t = 0) by (unfold min_of; now rewrite Hsg).
    rewrite Z.mod_small by lia. reflexivity.
Qed.

Lemma wrap_idem (t : ctype) (v : Z) : wrap t (wrap t v) = wrap t v.
Proof. apply wrap_id, wrap_in_range. Qed.

End CTypeFacts.

Module ConvFacts.

Import CTypeFacts.

Lemma ctype_eqb_refl (t : ctype) : ctype_eqb t t = true.
Proof. destruct t as [[|] [| | | |]]; reflexivity. Qed.

Lemma arith_conv_same (t : ctype) : arith_conv t t = promote t.
Proof. unfold arith_conv. now rewrite ctype_eqb_refl. Qed.

Lemma promote_in_range (t : ctype) (v : Z) :
  in_range t v -> in_range (promote t) v.
Proof.
  intros Hv.
  destruct t as [[|] [| | | |]];
    unfold in_range, promote, min_of, max_of, width in *;
    cbn [sgn rank width_of_rank rank_ord Z.ltb Z.compare Pos.compare
         Pos.compare_cont] in *;
    try exact Hv; cbn; lia.
Qed.

End ConvFacts.

(** ** Properties of the macros *)

Module UtilsSpec.

Import CTypeFacts ConvFacts.

Section Evaluation.

Context {state : Type}.

Lemma eval___min (t_x t_y : ctype) (x y : expr state) (s : state) :
  eval (__min t_x t_y x y) s =
  (fst (eval y (fst (eval x s))),
   let _x := init t_x (snd (eval x s)) in
   let _y := init t_y (snd (eval y (fst (eval x s)))) in
   val (c_cond (c_lt _x _y) _x _y)).
Proof.
  unfold __min, bind, ret; cbn [eval].
  destruct (eval x s) as [s1 vx]; cbn [fst snd].
  destruct (eval y s1) as [s2 vy]; reflexivity.
Qed.

Lemma eval___max (t_x t_y : ctype) (x y : expr state) (s : state) :
  eval (__max t_x t_y x y) s =
  (fst (eval y (fst (eval x s))),
   let _x := init t_x (snd (eval x s)) in
   let _y := init t_y (snd (eval y (fst (eval x s)))) in
   val (c_cond (c_gt _x _y) _x _y)).
Proof.
  unfold __max, bind, ret; cbn [eval].
  destruct (eval x s) as [s1 vx]; cbn [fst snd].
  destruct (eval y s1) as [s2 vy]; reflexivity.
Qed.

(** On two objects of one type the conversions of [<], [>] and [?:] change
    no value. *)
Lemma same_type_conv (t : ctype) (a : Z) :
  wrap (arith_conv t t) (wrap t a) = wrap t a.
Proof.
  rewrite arith_conv_same.
  apply wrap_id, promote_in_range, wrap_in_range.
Qed.

Lemma c_lt_same (t : ctype) (a b : Z) :
  c_lt (init t a) (init t b) = (wrap t a <? wrap t b).
Proof. unfold c_lt, init; cbn [ty val]. now rewrite !same_type_conv. Qed.

Lemma c_gt_same (t : ctype) (a b : Z) :
  c_gt (init t a) (init t b) = (wrap t a >? wrap t b).
Proof. unfold c_gt, init; cbn [ty val]. now rewrite !same_type_conv. Qed.

Lemma c_cond_same (t : ctype) (c : bool) (a b : Z) :
  val (c_cond c (init t a) (init t b)) = if c then wrap t a else wrap t b.
Proof.
  unfold c_cond, init; cbn [ty val].
  destruct c; cbn [val]; apply same_type_conv.
Qed.

Lemma eval_min_t (t : ctype) (x y : expr state) (s : state) :
  eval (min_t t x y) s =
  (fst (eval y (fst (eval x s))),
   let a := wrap t (snd (eval x s)) in
   let b := wrap t (snd (eval y (fst (eval x s)))) in
   if a <? b then a else b).
Proof.
  unfold min_t. rewrite eval___min. cbv zeta.
  now rewrite c_cond_same, c_lt_same.
Qed.

Lemma eval_max_t (t : ctype) (x y : expr state) (s : state) :
  eval (max_t t x y) s =
  (fst (eval y (fst (eval x s))),
   let a := wrap t (snd (eval x s)) in
   let b := wrap t (snd (eval y (fst (eval x s)))) in
   if a >? b then a else b).
Proof.
  unfold max_t. rewrite eval___max. cbv zeta.
  now rewrite c_cond_same, c_gt_same.
Qed.

(** [min] and [max] on two well-typed operands of one type. *)
Lemma eval_min_same (x y : expr state) (s s1 s2 : state) (vx vy : Z) :
  typeof x = typeof y -> well_typed x -> well_typed y ->
  eval x s = (s1, vx) -> eval y s1 = (s2, vy) ->
  eval (min x y) s = (s2, if vx <? vy then vx else vy).
Proof.
  intros Ht Hx Hy Ex Ey.
  specialize (Hx s). specialize (Hy s1). rewrite Ex in Hx. rewrite Ey in Hy.
  cbn [snd] in Hx, Hy.
  unfold min. rewrite Ht. fold (min_t (typeof y) x y).
  rewrite eval_min_t, Ex; cbn [fst snd]; rewrite Ey; cbn [fst snd].
  rewrite Ht in Hx.
  now rewrite !wrap_id by assumption.
Qed.

Lemma eval_max_same (x y : expr state) (s s1 s2 : state) (vx vy : Z) :
  typeof x = typeof y -> well_typed x -> well_typed y ->
  eval x s = (s1, vx) -> eval y s1 = (s2, vy) ->
  eval (max x y) s = (s2, if vx >? vy then vx else vy).
Proof.
  intros Ht Hx Hy Ex Ey.
  specialize (Hx s). specialize (Hy s1). rewrite Ex in Hx. rewrite Ey in Hy.
  cbn [snd] in Hx, Hy.
  unfold max. rewrite Ht. fold (max_t (typeof y) x y).
  rewrite eval_max_t, Ex; cbn [fst snd]; rewrite Ey; cbn [fst snd].
  rewrite Ht in Hx.
  now rewrite !wrap_id by assumption.
Qed.

Lemma lit_well_typed (t : ctype) (v : Z) :
  in_range t v -> well_typed (lit (state := state) t v).
Proof. intros Hv s. exact Hv. Qed.

(** C1. For two operands of one integer type, [min] delivers the first
    operand's value when it is less than or equal to the second's and the
    second's otherwise; [max] delivers the first operand's value when it is
    greater than or equal to the second's and the second's otherwise.  Each
    operand is evaluated once, the first before the second.  In particular
    [min(3, 5) == 3], [max(3, 5) == 5], [max(-1, 0) == 0] and
    [min(7, 7) == 7]. *)
Theorem min_max_spec :
  (forall (x y : expr state) (s s1 s2 : state) (vx vy : Z),
      typeof x = typeof y -> well_typed x -> well_typed y ->
      eval x s = (s1, vx) -> eval y s1 = (s2, vy) ->
      eval (min x y) s = (s2, if vx <=? vy then vx else vy) /\
      eval (max x y) s = (s2, if vx >=? vy then vx else vy)) /\
  (forall s : state,
      eval (min (lit int_t 3) (lit int_t 5)) s = (s, 3) /\
      eval (max (lit int_t 3) (lit int_t 5)) s = (s, 5) /\
      eval (max (lit int_t (-1)) (lit int_t 0)) s = (s, 0) /\
      eval (min (lit int_t 7) (lit int_t 7)) s = (s, 7)).
Proof.
  split.
  - intros x y s s1 s2 vx vy Ht Hx Hy Ex Ey. split.
    + rewrite (eval_min_same x y s s1 s2 vx vy) by assumption.
      f_equal. destruct (Z.ltb_spec vx vy), (Z.leb_spec vx vy); lia.
    + rewrite (eval_max_same x y s s1 s2 vx vy) by assumption.
      f_equal. rewrite Z.gtb_ltb, Z.geb_leb.
      destruct (Z.ltb_spec vy vx), (Z.leb_spec vy vx); lia.
  - intros s. split; [| split; [| split]]; reflexivity.
Qed.

(** C6. [min(x, x) == x] and [max(x, x) == x] for every value [x] of an
    integer type. *)
Theorem min_max_idempotent (t : ctype) (v : Z) (s : state) :
  in_range t v ->
  eval (min (lit t v) (lit t v)) s = (s, v) /\
  eval (max (lit t v) (lit t v)) s = (s, v).
Proof.
  intros Hv.
  pose proof (lit_well_typed t v Hv) as Hw.
  split.
  - rewrite (eval_min_same _ _ s s s v v) by (reflexivity || assumption).
    now rewrite Z.ltb_irrefl.
  - rewrite (eval_max_same _ _ s s s v v) by (reflexivity || assumption).
    now rewrite Z.gtb_ltb, Z.ltb_irrefl.
Qed.

(** C9. On two values [x] and [y] of one integer type both macros compare
    strictly and take their second operand on a tie; the pair
    ([min(x, y)], [max(x, y)]) is [(x, y)] or [(y, x)], so the two results
    add up to [x + y] (exactly, hence also modulo [2 ^ w] for every [w]),
    and [min(x, y) <= max(x, y)]. *)
Theorem min_max_rearrange (t : ctype) (x y : Z) (s : state) :
  in_range t x -> in_range t y ->
  let lo := snd (eval (min (lit t x) (lit t y)) s) in
  let hi := snd (eval (max (lit t x) (lit t y)) s) in
  c_lt (init t x) (init t y) = (x <? y) /\
  c_gt (init t x) (init t y) = (x >? y) /\
  (x = y -> c_lt (init t x) (init t y) = false /\
            c_gt (init t x) (init t y) = false /\ lo = y /\ hi = y) /\
  ((lo, hi) = (x, y) \/ (lo, hi) = (y, x)) /\
  lo + hi = x + y /\
  (forall w : Z, (lo + hi) mod 2 ^ w = (x + y) mod 2 ^ w) /\
  lo <= hi.
Proof.
  intros Hx Hy lo hi.
  assert (Hlo : lo = if x <? y then x else y).
  { subst lo.
    rewrite (eval_min_same _ _ s s s x y);
      auto using lit_well_typed. }
  assert (Hhi : hi = if x >? y then x else y).
  { subst hi.
    rewrite (eval_max_same _ _ s s s x y);
      auto using lit_well_typed. }
  assert (Hlt : c_lt (init t x) (init t y) = (x <? y)).
  { rewrite c_lt_same. now rewrite !wrap_id by assumption. }
  assert (Hgt : c_gt (init t x) (init t y) = (x >? y)).
  { rewrite c_gt_same. now rewrite !wrap_id by assumption. }
  rewrite Hlt, Hgt, Hlo, Hhi. rewrite Z.gtb_ltb.
  assert (Hsum : (if x <? y then x else y) + (if y <? x then x else y) = x + y)
    by (destruct (Z.ltb_spec x y), (Z.ltb_spec y x); lia).
  split; [reflexivity |].
  split; [reflexivity |].
  split; [intros ->; now rewrite Z.ltb_irrefl |].
  split.
  { destruct (Z.ltb_spec x y), (Z.ltb_spec y x);
      (now left) || (now right) || (right; f_equal; lia). }
  split; [exact Hsum |].
  split; [intros w; now rewrite Hsum |].
  destruct (Z.ltb_spec x y), (Z.ltb_spec y x); lia.
Qed.

Lemma eval_cast (t : ctype) (x : expr state) (s : state) :
  eval (cast t x) s = (fst (eval x s), wrap t (snd (eval x s))).
Proof.
  unfold cast, bind, ret; cbn [eval]. now destruct (eval x s).
Qed.

(** C3. [min_t(t, x, y)] and [max_t(t, x, y)] convert both operands to [t]
    and compare the converted values: they have the type and deliver the
    state and value of [min] and [max] applied to [(t)(x)] and [(t)(y)].
    In particular [min_t(__s64, 3, 5) == 3], of 64-bit type. *)
Theorem min_t_max_t_coerce (t : ctype) (x y : expr state) (s : state) :
  (typeof (min_t t x y) = typeof (min (cast t x) (cast t y)) /\
   eval (min_t t x y) s = eval (min (cast t x) (cast t y)) s) /\
  (typeof (max_t t x y) = typeof (max (cast t x) (cast t y)) /\
   eval (max_t t x y) s = eval (max (cast t x) (cast t y)) s) /\
  eval (min_t t x y) s =
    (fst (eval y (fst (eval x s))),
     let a := wrap t (snd (eval x s)) in
     let b := wrap t (snd (eval y (fst (eval x s)))) in
     if a <? b then a else b) /\
  eval (max_t t x y) s =
    (fst (eval y (fst (eval x s))),
     let a := wrap t (snd (eval x s)) in
     let b := wrap t (snd (eval y (fst (eval x s)))) in
     if a >? b then a else b) /\
  (typeof (min_t s64 (lit (state := state) int_t 3) (lit int_t 5)) = s64 /\
   width s64 = 64 /\
   eval (min_t s64 (lit int_t 3) (lit int_t 5)) s = (s, 3)).
Proof.
  assert (Hmin : eval (min (cast t x) (cast t y)) s = eval (min_t t x y) s).
  { change (min (cast t x) (cast t y)) with (min_t t (cast t x) (cast t y)).
    rewrite !eval_min_t, !eval_cast; cbn [fst snd].
    now rewrite !wrap_idem. }
  assert (Hmax : eval (max (cast t x) (cast t y)) s = eval (max_t t x y) s).
  { change (max (cast t x) (cast t y)) with (max_t t (cast t x) (cast t y)).
    rewrite !eval_max_t, !eval_cast; cbn [fst snd].
    now rewrite !wrap_idem. }
  split; [split; [reflexivity | now rewrite Hmin] |].
  split; [split; [reflexivity | now rewrite Hmax] |].
  split; [apply eval_min_t |].
  split; [apply eval_max_t |].
  split; [reflexivity | split; reflexivity].
Qed.

Lemma eval_operands_pure (o : eval_order) (x y : expr state) (s : state) :
  side_effect_free x -> side_effect_free y ->
  operands o x y s =
  (s, (Cval (typeof x) (snd (eval x s)), Cval (typeof y) (snd (eval y s)))).
Proof.
  intros Hx Hy.
  pose proof (Hx s) as Hxs. pose proof (Hy s) as Hys.
  destruct o; unfold operands, bind, ret.
  - destruct (eval x s) as [s1 vx]; cbn [fst snd] in *; subst s1.
    destruct (eval y s) as [s2 vy]; cbn [fst snd] in *; now subst s2.
  - destruct (eval y s) as [s2 vy]; cbn [fst snd] in *; subst s2.
    destruct (eval x s) as [s1 vx]; cbn [fst snd] in *; now subst s1.
Qed.

Lemma eval_SIMPLE_MIN_pure (o : eval_order) (x y : expr state) (s : state) :
  side_effect_free x -> side_effect_free y ->
  eval (SIMPLE_MIN o x y) s =
  (s,
   let a := Cval (typeof x) (snd (eval x s)) in
   let b := Cval (typeof y) (snd (eval y s)) in
   val (c_cond (c_lt a b) a b)).
Proof.
  intros Hx Hy.
  unfold SIMPLE_MIN; cbn [eval]. unfold bind at 1.
  rewrite eval_operands_pure by assumption. cbn [fst snd].
  pose proof (Hx s) as Hxs. pose proof (Hy s) as Hys.
  unfold bind, ret, c_cond; cbn [ty val].
  destruct (c_lt _ _).
  - destruct (eval x s) as [s1 vx]; cbn [fst snd] in *; now subst s1.
  - destruct (eval y s) as [s2 vy]; cbn [fst snd] in *; now subst s2.
Qed.

Lemma eval_min_pure (x y : expr state) (s : state) :
  side_effect_free x -> side_effect_free y ->
  eval (min x y) s =
  (s,
   let a := init (typeof x) (snd (eval x s)) in
   let b := init (typeof y) (snd (eval y s)) in
   val (c_cond (c_lt a b) a b)).
Proof.
  intros Hx Hy. unfold min. rewrite eval___min.
  now rewrite (Hx s), (Hy s).
Qed.

Lemma eval_max_pure (x y : expr state) (s : state) :
  side_effect_free x -> side_effect_free y ->
  eval (max x y) s =
  (s,
   let a := init (typeof x) (snd (eval x s)) in
   let b := init (typeof y) (snd (eval y s)) in
   val (c_cond (c_gt a b) a b)).
Proof.
  intros Hx Hy. unfold max. rewrite eval___max.
  now rewrite (Hx s), (Hy s).
Qed.

(** C4. On side-effect-free operands [SIMPLE_MIN(x, y)] has the type and
    delivers the value of [min(x, y)], whichever operand of [<] is
    evaluated first (and also when the two operands differ in type). *)
Theorem SIMPLE_MIN_agrees_with_min
    (o : eval_order) (x y : expr state) (s : state) :
  side_effect_free x -> side_effect_free y ->
  well_typed x -> well_typed y ->
  typeof (SIMPLE_MIN o x y) = typeof (min x y) /\
  eval (SIMPLE_MIN o x y) s = eval (min x y) s.
Proof.
  intros Hx Hy Wx Wy. split; [reflexivity |].
  rewrite eval_SIMPLE_MIN_pure, eval_min_pure by assumption.
  unfold init. now rewrite !wrap_id by (apply Wx || apply Wy).
Qed.

Lemma total_pure_intro
    (op : expr state -> expr state -> expr state)
    (T : ctype -> ctype -> ctype) (F : ctype -> Z -> ctype -> Z -> Z) :
  (forall x y, typeof (op x y) = T (typeof x) (typeof y)) ->
  (forall x y s,
      side_effect_free x -> side_effect_free y ->
      eval (op x y) s =
      (s, F (typeof x) (snd (eval x s)) (typeof y) (snd (eval y s)))) ->
  (forall t_x vx t_y vy, in_range (T t_x t_y) (F t_x vx t_y vy)) ->
  total_pure op.
Proof.
  intros HT HF Hr x y Hx Hy. split.
  - intros s. eexists. split; [now apply HF |].
    rewrite HT. apply Hr.
  - intros x' y' s s' Hx' Hy' Tx Ty Vx Vy. split.
    + now rewrite !HT, Tx, Ty.
    + rewrite !HF by assumption. cbn [snd]. now rewrite Tx, Ty, Vx, Vy.
Qed.

Lemma c_cond_in_range (c : bool) (a b : cval) :
  in_range (arith_conv (ty a) (ty b)) (val (c_cond c a b)).
Proof. unfold c_cond; cbn [val]. apply wrap_in_range. Qed.

Lemma total_pure___min (f : ctype -> ctype) (g : ctype -> ctype) :
  total_pure (fun x y : expr state => __min (f (typeof x)) (g (typeof y)) x y).
Proof.
  apply total_pure_intro with
    (T := fun t_x t_y => arith_conv (f t_x) (g t_y))
    (F := fun t_x vx t_y vy =>
            let _x := init (f t_x) vx in
            let _y := init (g t_y) vy in
            val (c_cond (c_lt _x _y) _x _y)).
  - reflexivity.
  - intros x y s Hx Hy. rewrite eval___min. now rewrite (Hx s), (Hy s).
  - intros. apply (c_cond_in_range _ (init _ _) (init _ _)).
Qed.

Lemma total_pure___max (f : ctype -> ctype) (g : ctype -> ctype) :
  total_pure (fun x y : expr state => __max (f (typeof x)) (g (typeof y)) x y).
Proof.
  apply total_pure_intro with
    (T := fun t_x t_y => arith_conv (f t_x) (g t_y))
    (F := fun t_x vx t_y vy =>
            let _x := init (f t_x) vx in
            let _y := init (g t_y) vy in
            val (c_cond (c_gt _x _y) _x _y)).
  - reflexivity.
  - intros x y s Hx Hy. rewrite eval___max. now rewrite (Hx s), (Hy s).
  - intros. apply (c_cond_in_range _ (init _ _) (init _ _)).
Qed.

(** C7. [min], [max], [min_t], [max_t] and [SIMPLE_MIN] are total and pure:
    on side-effect-free operands each one leaves the state unchanged and
    delivers a value of its result type (an evaluation has no error
    outcome), and invocations on operands of equal types and values deliver
    equal results. *)
Theorem operations_total_pure :
  total_pure (state := state) min /\
  total_pure (state := state) max /\
  (forall t : ctype, total_pure (state := state) (min_t t)) /\
  (forall t : ctype, total_pure (state := state) (max_t t)) /\
  (forall o : eval_order, total_pure (state := state) (SIMPLE_MIN o)).
Proof.
  split; [exact (total_pure___min (fun t => t) (fun t => t)) |].
  split; [exact (total_pure___max (fun t => t) (fun t => t)) |].
  split; [intros t; exact (total_pure___min (fun _ => t) (fun _ => t)) |].
  split; [intros t; exact (total_pure___max (fun _ => t) (fun _ => t)) |].
  intros o.
  apply total_pure_intro with
    (T := arith_conv)
    (F := fun t_x vx t_y vy =>
            let a := Cval t_x vx in
            let b := Cval t_y vy in
            val (c_cond (c_lt a b) a b)).
  - reflexivity.
  - intros x y s Hx Hy. now apply eval_SIMPLE_MIN_pure.
  - intros. apply (c_cond_in_range _ (Cval _ _) (Cval _ _)).
Qed.

End Evaluation.

Section Effects.

Context {state : Type}.

Lemma eval_observed (l : operand) (x : expr state)
    (log : list operand) (s : state) :
  eval (observed l x) (log, s) =
  ((l :: log, fst (eval x s)), snd (eval x s)).
Proof. unfold observed; cbn [eval fst snd]. now destruct (eval x s). Qed.

(** C2. In an invocation of [min] or [max] the side effect of each operand
    occurs exactly once, the first operand's before the second's, whatever
    the operands deliver and whichever is selected: the log grows by one
    entry for each operand, and the state is the one left by evaluating
    [x] once and then [y] once. *)
Theorem min_max_single_evaluation
    (x y : expr state) (log : list operand) (s : state) :
  let ox := observed OpX x in
  let oy := observed OpY y in
  let after_min := fst (eval (min ox oy) (log, s)) in
  let after_max := fst (eval (max ox oy) (log, s)) in
  (fst after_min = OpY :: OpX :: log /\
   occurrences OpX (fst after_min) = S (occurrences OpX log) /\
   occurrences OpY (fst after_min) = S (occurrences OpY log) /\
   snd after_min = fst (eval y (fst (eval x s)))) /\
  (fst after_max = OpY :: OpX :: log /\
   occurrences OpX (fst after_max) = S (occurrences OpX log) /\
   occurrences OpY (fst after_max) = S (occurrences OpY log) /\
   snd after_max = fst (eval y (fst (eval x s)))).
Proof.
  intros ox oy after_min after_max.
  assert (Hmin : after_min =
                 (OpY :: OpX :: log, fst (eval y (fst (eval x s))))).
  { subst after_min ox oy. unfold min. rewrite eval___min.
    cbn [fst]. rewrite eval_observed; cbn [fst]. now rewrite eval_observed. }
  assert (Hmax : after_max =
                 (OpY :: OpX :: log, fst (eval y (fst (eval x s))))).
  { subst after_max ox oy. unfold max. rewrite eval___max.
    cbn [fst]. rewrite eval_observed; cbn [fst]. now rewrite eval_observed. }
  rewrite Hmin, Hmax; cbn [fst snd].
  repeat split.
Qed.

Lemma log_operands (o : eval_order) (x y : expr state)
    (log : list operand) (s : state) :
  fst (fst (operands o (observed OpX x) (observed OpY y) (log, s))) =
  match o with
  | LeftToRight => OpY :: OpX :: log
  | RightToLeft => OpX :: OpY :: log
  end.
Proof.
  destruct o; unfold operands, bind, ret.
  - rewrite eval_observed. now rewrite eval_observed.
  - rewrite eval_observed. now rewrite eval_observed.
Qed.

Lemma eval_SIMPLE_MIN (o : eval_order) {st : Type} (x y : expr st) (s : st) :
  eval (SIMPLE_MIN o x y) s =
  let cmp := operands o x y s in
  let r := eval (if c_lt (fst (snd cmp)) (snd (snd cmp)) then x else y)
             (fst cmp) in
  (fst r, wrap (arith_conv (typeof x) (typeof y)) (snd r)).
Proof.
  unfold SIMPLE_MIN; cbn [eval]. unfold bind at 1. cbv zeta.
  destruct (operands o x y s) as [s1 ab]; cbn [fst snd].
  unfold bind, ret.
  destruct (c_lt (fst ab) (snd ab)).
  - now destruct (eval x s1).
  - now destruct (eval y s1).
Qed.

(** C10. [SIMPLE_MIN(x, y)] mentions each argument twice.  The comparison
    evaluates both operands once; the selected operand is then evaluated a
    second time, and that second evaluation delivers the result.  So the
    side effect of an operand occurs twice when it is the one selected and
    once otherwise, in either evaluation order of [<]. *)
Theorem SIMPLE_MIN_double_evaluation
    (o : eval_order) (x y : expr state) (log : list operand) (s : state) :
  let ox := observed OpX x in
  let oy := observed OpY y in
  let cmp := operands o ox oy (log, s) in
  let x_selected := c_lt (fst (snd cmp)) (snd (snd cmp)) in
  let final := eval (SIMPLE_MIN o ox oy) (log, s) in
  (occurrences OpX (fst (fst cmp)) = S (occurrences OpX log) /\
   occurrences OpY (fst (fst cmp)) = S (occurrences OpY log)) /\
  final =
    (let r := eval (if x_selected then ox else oy) (fst cmp) in
     (fst r, wrap (arith_conv (typeof x) (typeof y)) (snd r))) /\
  fst (fst final) = (if x_selected then OpX else OpY) :: fst (fst cmp) /\
  occurrences OpX (fst (fst final)) =
    ((if x_selected then 2 else 1) + occurrences OpX log)%nat /\
  occurrences OpY (fst (fst final)) =
    ((if x_selected then 1 else 2) + occurrences OpY log)%nat.
Proof.
  intros ox oy cmp x_selected final.
  assert (Hfinal : final =
    (let r := eval (if x_selected then ox else oy) (fst cmp) in
     (fst r, wrap (arith_conv (typeof x) (typeof y)) (snd r))))
    by (subst final; apply (eval_SIMPLE_MIN o ox oy)).
  pose proof (log_operands o x y log s) as Hlog.
  fold ox oy cmp in Hlog.
  assert (Hstep : fst (fst final) =
                  (if x_selected then OpX else OpY) :: fst (fst cmp)).
  { rewrite Hfinal. cbv zeta. cbn [fst].
    destruct cmp as [[log1 s1] ab]; cbn [fst].
    destruct x_selected; subst ox oy; now rewrite eval_observed. }
  split.
  { rewrite Hlog. destruct o; split; reflexivity. }
  split; [exact Hfinal |].
  split; [exact Hstep |].
  rewrite Hstep, Hlog.
  destruct x_selected, o; split; reflexivity.
Qed.

End Effects.

Section MixedSignedness.

Context {state : Type}.

Lemma eval_min_lit (t_x t_y : ctype) (x y : Z) (s : state) :
  in_range t_x x -> in_range t_y y ->
  eval (min (lit t_x x) (lit t_y y)) s =
  (s,
   let t := arith_conv t_x t_y in
   if wrap t x <? wrap t y then wrap t x else wrap t y).
Proof.
  intros Hx Hy. unfold min. rewrite eval___min.
  cbn [lit typeof eval ret fst snd].
  unfold init, c_cond, c_lt; cbn [ty val].
  rewrite (wrap_id t_x x Hx), (wrap_id t_y y Hy).
  now destruct (_ <? _).
Qed.

Ltac compute_conv :=
  repeat match goal with
    | |- context [arith_conv ?a ?b] =>
        let r := eval vm_compute in (arith_conv a b) in
        change (arith_conv a b) with r
    end.

(** C8, as the code has it.  [min(x, y)] on a negative [x] of a signed type
    and a [y] of an unsigned type of the same width [w] compares after the
    usual arithmetic conversions.  When [w] is at least the width of [int],
    the common type is unsigned of width [w], [x] takes part as
    [x mod 2 ^ w], and the result is the lesser of [x mod 2 ^ w] and [y]:
    it is [y] exactly when [y <= x mod 2 ^ w].  When [w] is below the width
    of [int], both operands are promoted to [int] and the result is [x]. *)
Theorem min_signed_unsigned (t_x t_y : ctype) (x y : Z) (s : state) :
  sgn t_x = Signed -> sgn t_y = Unsigned -> width t_x = width t_y ->
  in_range t_x x -> x < 0 -> in_range t_y y ->
  let w := width t_x in
  let r := min (lit t_x x) (lit t_y y) in
  eval r s =
    (s,
     let t := arith_conv t_x t_y in
     if wrap t x <? wrap t y then wrap t x else wrap t y) /\
  (width int_t <= w ->
   sgn (typeof r) = Unsigned /\ width (typeof r) = w /\
   wrap (typeof r) x = x mod 2 ^ w /\ wrap (typeof r) y = y /\
   eval r s = (s, if x mod 2 ^ w <? y then x mod 2 ^ w else y) /\
   (snd (eval r s) = y <-> y <= x mod 2 ^ w)) /\
  (w < width int_t ->
   typeof r = int_t /\ wrap int_t x = x /\ wrap int_t y = y /\
   eval r s = (s, x)).
Proof.
  intros Sx Sy Hw Hx Hneg Hy. cbv zeta.
  rewrite (eval_min_lit t_x t_y x y s Hx Hy).
  split; [reflexivity |].
  unfold min; cbn [lit typeof __min snd].
  destruct t_x as [[|] rx]; try discriminate Sx.
  destruct t_y as [[|] ry]; try discriminate Sy.
  clear Sx Sy.
  destruct rx, ry; try discriminate Hw; clear Hw;
    (split; intros Hi; [| try (exfalso; revert Hi; cbv; congruence)];
     try (exfalso; apply Hi; reflexivity));
    compute_conv; cbv zeta;
    unfold in_range, wrap, modulus, min_of, max_of, width, int_t in *;
    cbn [sgn rank width_of_rank] in *.
  all: try match goal with
    | |- context [?a mod ?m <? ?b mod ?m] =>
        destruct (Z.ltb_spec (a mod m) (b mod m))
    end.
  all: try match goal with
    | |- context [?a <? ?b] => destruct (Z.ltb_spec a b)
    end.
  all: repeat split; cbn [snd]; try intros ?; try f_equal.
  all: Z.div_mod_to_equations; lia.
Qed.

End MixedSignedness.

(** ** The statements at concrete operands *)

Ltac range := unfold in_range; vm_compute; split; discriminate.

Ltac lit_ok :=
  match goal with
  | |- well_typed (lit _ _) => intros ?; cbn [lit typeof eval ret snd]; range
  | |- side_effect_free (lit _ _) => intros ?; reflexivity
  | |- in_range _ _ => range
  end.

Example min_t_converts_first :
  eval (min_t u8 (lit (state := unit) int_t 256) (lit int_t 1)) tt = (tt, 0).
Proof. reflexivity. Qed.

Example max_t_converts_first :
  eval (max_t s8 (lit (state := unit) int_t 128) (lit int_t 1)) tt = (tt, 1).
Proof. reflexivity. Qed.

Lemma min_max_spec_witness :
  eval (min (lit (state := unit) s16 (-4)) (lit s16 9)) tt = (tt, -4) /\
  eval (max (lit (state := unit) s16 (-4)) (lit s16 9)) tt = (tt, 9).
Proof.
  apply (proj1 (@min_max_spec unit)
           (lit s16 (-4)) (lit s16 9) tt tt tt (-4) 9);
    try reflexivity; lit_ok.
Defined.

Lemma min_max_idempotent_witness :
  in_range u16 65535 /\
  eval (min (lit (state := unit) u16 65535) (lit u16 65535)) tt = (tt, 65535) /\
  eval (max (lit (state := unit) u16 65535) (lit u16 65535)) tt = (tt, 65535).
Proof.
  split; [range |].
  apply (@min_max_idempotent unit u16 65535 tt). range.
Defined.

Lemma min_max_rearrange_witness :
  in_range s32 5 /\ in_range s32 (-3) /\
  snd (eval (min (lit (state := unit) s32 5) (lit s32 (-3))) tt) +
  snd (eval (max (lit (state := unit) s32 5) (lit s32 (-3))) tt) = 5 + -3 /\
  snd (eval (min (lit (state := unit) s32 5) (lit s32 (-3))) tt) <=
  snd (eval (max (lit (state := unit) s32 5) (lit s32 (-3))) tt).
Proof.
  assert (H5 : in_range s32 5) by range.
  assert (H3 : in_range s32 (-3)) by range.
  split; [exact H5 |]. split; [exact H3 |].
  destruct (@min_max_rearrange unit s32 5 (-3) tt H5 H3)
    as (_ & _ & _ & _ & Hsum & _ & Hle).
  split; [exact Hsum | exact Hle].
Defined.

Lemma SIMPLE_MIN_agrees_with_min_witness :
  eval (SIMPLE_MIN RightToLeft (lit (state := unit) s32 (-2)) (lit u32 7)) tt =
  eval (min (lit (state := unit) s32 (-2)) (lit u32 7)) tt.
Proof.
  apply (@SIMPLE_MIN_agrees_with_min unit RightToLeft
           (lit s32 (-2)) (lit u32 7) tt); lit_ok.
Defined.

Lemma operations_total_pure_witness :
  let r := max_t u8 (lit (state := unit) int_t 300) (lit int_t 7) in
  exists v : Z, eval r tt = (tt, v) /\ in_range (typeof r) v.
Proof.
  destruct (@operations_total_pure unit) as (_ & _ & _ & Hmax_t & _).
  apply (Hmax_t u8 (lit int_t 300) (lit int_t 7)); lit_ok.
Defined.

Lemma min_signed_unsigned_witness :
  in_range s64 (-1) /\ in_range u64 5 /\
  eval (min (lit (state := unit) s64 (-1)) (lit u64 5)) tt = (tt, 5).
Proof.
  assert (Hx : in_range s64 (-1)) by range.
  assert (Hy : in_range u64 5) by range.
  split; [exact Hx |]. split; [exact Hy |].
  destruct (@min_signed_unsigned unit s64 u64 (-1) 5 tt
              eq_refl eq_refl eq_refl Hx eq_refl Hy) as (_ & Hwide & _).
  destruct Hwide as (_ & _ & _ & _ & He & _); [vm_compute; discriminate |].
  exact He.
Defined.

(** C8, as stated, fails: [min((__s32)-2, (__u32)4294967295)] is
    [4294967294], the converted first operand, and
    [min((__s8)-1, (__u8)0)] is [-1], compared and delivered as an [int];
    neither is the second operand. *)
Lemma min_signed_unsigned_counterexample :
  (sgn s32 = Signed /\ sgn u32 = Unsigned /\ width s32 = width u32 /\
   in_range s32 (-2) /\ -2 < 0 /\ in_range u32 4294967295 /\
   eval (min (lit (state := unit) s32 (-2)) (lit u32 4294967295)) tt
     = (tt, 4294967294) /\
   4294967294 <> 4294967295) /\
  (sgn s8 = Signed /\ sgn u8 = Unsigned /\ width s8 = width u8 /\
   in_range s8 (-1) /\ -1 < 0 /\ in_range u8 0 /\
   eval (min (lit (state := unit) s8 (-1)) (lit u8 0)) tt = (tt, -1) /\
   -1 <> 0).
Proof.
  repeat match goal with
    | |- _ /\ _ => split
    | |- in_range _ _ => range
    | |- _ <> _ => discriminate
    | |- _ => reflexivity
    end.
Qed.

End UtilsSpec.

(** ** Laws of the macros: mixed operand types, nesting, [min_t] / [max_t] *)

Module UtilsLaws.

Import CTypeFacts ConvFacts UtilsSpec.

Ltac conv_cases a b :=
  destruct a as [[|] [| | | |]]; destruct b as [[|] [| | | |]];
  repeat match goal with
    | |- context [arith_conv ?a ?b] =>
        let r := eval vm_compute in (arith_conv a b) in
        change (arith_conv a b) with r
    | H : context [arith_conv ?a ?b] |- _ =>
        let r := eval vm_compute in (arith_conv a b) in
        change (arith_conv a b) with r in H
    end.

Ltac unfold_range :=
  unfold in_range, min_of, max_of, width in *;
  cbn [sgn rank width_of_rank] in *.

(** The common type does not depend on the order of the operands. *)
Lemma arith_conv_comm (a b : ctype) : arith_conv a b = arith_conv b a.
Proof. conv_cases a b; reflexivity. Qed.

(** A common type is a promoted type: converting to it twice changes
    nothing. *)
Lemma arith_conv_promoted (a b : ctype) :
  arith_conv (arith_conv a b) (arith_conv a b) = arith_conv a b.
Proof. conv_cases a b; reflexivity. Qed.

(** When the common type is signed, or both types have one signedness, the
    common type holds every value of the left type. *)
Lemma common_range_l (a b : ctype) (v : Z) :
  sgn a = sgn b \/ sgn (arith_conv a b) = Signed ->
  in_range a v -> in_range (arith_conv a b) v.
Proof.
  intros Hs Hv.
  conv_cases a b; cbn [sgn] in Hs;
    try (exfalso; destruct Hs; discriminate);
    clear Hs; unfold_range; lia.
Qed.

Lemma common_range_r (a b : ctype) (v : Z) :
  sgn a = sgn b \/ sgn (arith_conv a b) = Signed ->
  in_range b v -> in_range (arith_conv a b) v.
Proof.
  intros Hs Hv. rewrite arith_conv_comm in *.
  apply common_range_l; [| exact Hv].
  destruct Hs as [Hs | Hs]; [left; now symmetry | now right].
Qed.

(** The common type holds every non-negative value of either type. *)
Lemma common_range_nonneg (a b : ctype) (v : Z) :
  0 <= v -> in_range a v \/ in_range b v -> in_range (arith_conv a b) v.
Proof.
  intros H0 Hv.
  conv_cases a b; unfold_range; lia.
Qed.

Lemma ltb_min (a b : Z) : (if a <? b then a else b) = Z.min a b.
Proof. destruct (Z.ltb_spec a b); lia. Qed.

Lemma gtb_max (a b : Z) : (if a >? b then a else b) = Z.max a b.
Proof. rewrite Z.gtb_ltb. destruct (Z.ltb_spec b a); lia. Qed.

Section Exact.

Context {state : Type}.

(** What [__min] and [__max] deliver, for any operands: the lesser (the
    greater) of the two initialized locals, each converted to the common
    type. *)
Lemma eval___min_conv (t_x t_y : ctype) (x y : expr state) (s : state) :
  eval (__min t_x t_y x y) s =
  (fst (eval y (fst (eval x s))),
   let t := arith_conv t_x t_y in
   Z.min (wrap t (wrap t_x (snd (eval x s))))
         (wrap t (wrap t_y (snd (eval y (fst (eval x s))))))).
Proof.
  rewrite eval___min. cbv zeta. f_equal.
  unfold c_cond, c_lt, init; cbn [ty val].
  rewrite <- ltb_min. now destruct (_ <? _).
Qed.

Lemma eval___max_conv (t_x t_y : ctype) (x y : expr state) (s : state) :
  eval (__max t_x t_y x y) s =
  (fst (eval y (fst (eval x s))),
   let t := arith_conv t_x t_y in
   Z.max (wrap t (wrap t_x (snd (eval x s))))
         (wrap t (wrap t_y (snd (eval y (fst (eval x s))))))).
Proof.
  rewrite eval___max. cbv zeta. f_equal.
  unfold c_cond, c_gt, init; cbn [ty val].
  rewrite <- gtb_max. now destruct (_ >? _).
Qed.

(** [min] and [max] are exact whenever the common type holds the values
    of both operands. *)
Lemma eval_min_exact (x y : expr state) (s : state) :
  well_typed x -> well_typed y ->
  in_range (typeof (min x y)) (snd (eval x s)) ->
  in_range (typeof (min x y)) (snd (eval y (fst (eval x s)))) ->
  eval (min x y) s =
  (fst (eval y (fst (eval x s))),
   Z.min (snd (eval x s)) (snd (eval y (fst (eval x s))))).
Proof.
  intros Wx Wy Rx Ry. unfold min. rewrite eval___min_conv. cbv zeta.
  rewrite (wrap_id (typeof x)) by apply Wx.
  rewrite (wrap_id (typeof y)) by apply Wy.
  now rewrite !wrap_id by assumption.
Qed.

Lemma eval_max_exact (x y : expr state) (s : state) :
  well_typed x -> well_typed y ->
  in_range (typeof (max x y)) (snd (eval x s)) ->
  in_range (typeof (max x y)) (snd (eval y (fst (eval x s)))) ->
  eval (max x y) s =
  (fst (eval y (fst (eval x s))),
   Z.max (snd (eval x s)) (snd (eval y (fst (eval x s))))).
Proof.
  intros Wx Wy Rx Ry. unfold max. rewrite eval___max_conv. cbv zeta.
  rewrite (wrap_id (typeof x)) by apply Wx.
  rewrite (wrap_id (typeof y)) by apply Wy.
  now rewrite !wrap_id by assumption.
Qed.

Lemma min_well_typed (t_x t_y : ctype) (x y : expr state) :
  well_typed (__min t_x t_y x y).
Proof.
  intros s. rewrite eval___min. cbn [snd typeof __min].
  apply (c_cond_in_range _ (init _ _) (init _ _)).
Qed.

Lemma max_well_typed (t_x t_y : ctype) (x y : expr state) :
  well_typed (__max t_x t_y x y).
Proof.
  intros s. rewrite eval___max. cbn [snd typeof __max].
  apply (c_cond_in_range _ (init _ _) (init _ _)).
Qed.

(** X1. When both operand types have one signedness (whatever their ranks),
    or the common type of the two is signed, [min] and [max] deliver the
    mathematical minimum and maximum of the operand values; each operand
    is evaluated once, [x] before [y]. *)
Theorem min_max_exact (x y : expr state) (s : state) :
  well_typed x -> well_typed y ->
  sgn (typeof x) = sgn (typeof y) \/ sgn (typeof (min x y)) = Signed ->
  eval (min x y) s =
    (fst (eval y (fst (eval x s))),
     Z.min (snd (eval x s)) (snd (eval y (fst (eval x s))))) /\
  eval (max x y) s =
    (fst (eval y (fst (eval x s))),
     Z.max (snd (eval x s)) (snd (eval y (fst (eval x s))))).
Proof.
  intros Wx Wy Hs.
  assert (Rx : in_range (typeof (min x y)) (snd (eval x s)))
    by (apply common_range_l; [exact Hs | apply Wx]).
  assert (Ry : in_range (typeof (min x y)) (snd (eval y (fst (eval x s)))))
    by (apply common_range_r; [exact Hs | apply Wy]).
  split; [now apply eval_min_exact | now apply eval_max_exact].
Qed.

(** X2. On operands of any two integer types whose values are not negative,
    [min] and [max] deliver the mathematical minimum and maximum. *)
Theorem min_max_nonnegative (x y : expr state) (s : state) :
  well_typed x -> well_typed y ->
  0 <= snd (eval x s) -> 0 <= snd (eval y (fst (eval x s))) ->
  eval (min x y) s =
    (fst (eval y (fst (eval x s))),
     Z.min (snd (eval x s)) (snd (eval y (fst (eval x s))))) /\
  eval (max x y) s =
    (fst (eval y (fst (eval x s))),
     Z.max (snd (eval x s)) (snd (eval y (fst (eval x s))))).
Proof.
  intros Wx Wy Hx Hy.
  assert (Rx : in_range (typeof (min x y)) (snd (eval x s)))
    by (apply common_range_nonneg; [exact Hx | left; apply Wx]).
  assert (Ry : in_range (typeof (min x y)) (snd (eval y (fst (eval x s)))))
    by (apply common_range_nonneg; [exact Hy | right; apply Wy]).
  split; [now apply eval_min_exact | now apply eval_max_exact].
Qed.

(** X3. [max(x, y)] on a negative [x] of a signed type and a [y] of an
    unsigned type of the same width [w].  When [w] is at least the width of
    [int], the result is the greater of [x mod 2 ^ w] and [y], at least
    [2 ^ (w - 1)]; when [w] is below the width of [int], both operands are
    promoted to [int] and the result is [y]. *)
Theorem max_signed_unsigned (t_x t_y : ctype) (x y : Z) (s : state) :
  sgn t_x = Signed -> sgn t_y = Unsigned -> width t_x = width t_y ->
  in_range t_x x -> x < 0 -> in_range t_y y ->
  let w := width t_x in
  let r := max (lit t_x x) (lit t_y y) in
  (width int_t <= w ->
   sgn (typeof r) = Unsigned /\ width (typeof r) = w /\
   eval r s = (s, Z.max (x mod 2 ^ w) y) /\
   2 ^ (w - 1) <= snd (eval r s)) /\
  (w < width int_t -> typeof r = int_t /\ eval r s = (s, y)).
Proof.
  intros Sx Sy Hw Hx Hneg Hy. cbv zeta.
  assert (E : eval (max (lit t_x x) (lit t_y y)) s =
              (s, Z.max (wrap (arith_conv t_x t_y) x)
                        (wrap (arith_conv t_x t_y) y))).
  { unfold max. rewrite eval___max_conv.
    cbn [lit typeof eval ret fst snd]. cbv zeta.
    now rewrite (wrap_id t_x x Hx), (wrap_id t_y y Hy). }
  rewrite E. cbn [snd]. clear E.
  unfold max; cbn [lit typeof __max].
  destruct t_x as [[|] rx]; try discriminate Sx.
  destruct t_y as [[|] ry]; try discriminate Sy.
  clear Sx Sy.
  destruct rx, ry; try discriminate Hw; clear Hw;
    repeat match goal with
      | |- context [arith_conv ?a ?b] =>
          let r := eval vm_compute in (arith_conv a b) in
          change (arith_conv a b) with r
      end;
    unfold in_range, wrap, modulus, min_of, max_of, width, int_t in *;
    cbn [sgn rank width_of_rank] in *;
    (split; intros Hi; [| try lia]; try lia).
  all: repeat split; try f_equal.
  all: Z.div_mod_to_equations; lia.
Qed.

(** X4. On side-effect-free operands of any two integer types, [min] and
    [max] are commutative: swapping the operands changes neither the type
    nor the value of the result. *)
Theorem min_max_commute (x y : expr state) (s : state) :
  side_effect_free x -> side_effect_free y ->
  (typeof (min x y) = typeof (min y x) /\
   eval (min x y) s = eval (min y x) s) /\
  (typeof (max x y) = typeof (max y x) /\
   eval (max x y) s = eval (max y x) s).
Proof.
  intros Hx Hy.
  split; (split; [apply arith_conv_comm |]).
  - unfold min. rewrite !eval___min_conv. cbv zeta.
    repeat (rewrite (Hx s) || rewrite (Hy s)).
    now rewrite Z.min_comm, (arith_conv_comm (typeof x)).
  - unfold max. rewrite !eval___max_conv. cbv zeta.
    repeat (rewrite (Hx s) || rewrite (Hy s)).
    now rewrite Z.max_comm, (arith_conv_comm (typeof x)).
Qed.

(** X6. Whatever the types of the operands, when both operand values lie in
    the range of [t], [min_t(t, x, y)] and [max_t(t, x, y)] deliver the
    mathematical minimum and maximum of the values. *)
Theorem min_t_max_t_exact (t : ctype) (x y : expr state) (s : state) :
  in_range t (snd (eval x s)) ->
  in_range t (snd (eval y (fst (eval x s)))) ->
  eval (min_t t x y) s =
    (fst (eval y (fst (eval x s))),
     Z.min (snd (eval x s)) (snd (eval y (fst (eval x s))))) /\
  eval (max_t t x y) s =
    (fst (eval y (fst (eval x s))),
     Z.max (snd (eval x s)) (snd (eval y (fst (eval x s))))).
Proof.
  intros Rx Ry.
  rewrite eval_min_t, eval_max_t. cbv zeta.
  rewrite !(wrap_id t _ Rx), !(wrap_id t _ Ry).
  now rewrite ltb_min, gtb_max.
Qed.

(** X7. The result of [min_t(t, x, y)] and of [max_t(t, x, y)] is always a
    value of [t], also where the result type is the wider promoted type
    and whatever the operands deliver. *)
Theorem min_t_max_t_in_range (t : ctype) (x y : expr state) (s : state) :
  in_range t (snd (eval (min_t t x y) s)) /\
  in_range t (snd (eval (max_t t x y) s)).
Proof.
  rewrite eval_min_t, eval_max_t. cbv zeta. cbn [snd].
  split.
  - destruct (_ <? _); apply wrap_in_range.
  - destruct (_ >? _); apply wrap_in_range.
Qed.

(** X10. [min(x, y)] is [min_t] at the common type of its operands:
    comparing two well-typed operands in their own types is comparing
    them after a cast of both to the result type.  Likewise for [max]. *)
Theorem min_max_as_min_t_max_t (x y : expr state) (s : state) :
  well_typed x -> well_typed y ->
  (typeof (min_t (typeof (min x y)) x y) = typeof (min x y) /\
   eval (min_t (typeof (min x y)) x y) s = eval (min x y) s) /\
  (typeof (max_t (typeof (max x y)) x y) = typeof (max x y) /\
   eval (max_t (typeof (max x y)) x y) s = eval (max x y) s).
Proof.
  intros Wx Wy.
  split; (split; [apply arith_conv_promoted |]).
  - unfold min_t, min. rewrite !eval___min_conv. cbv zeta.
    cbn [typeof __min]. rewrite arith_conv_promoted, !wrap_idem.
    rewrite (wrap_id (typeof x)) by apply Wx.
    now rewrite (wrap_id (typeof y)) by apply Wy.
  - unfold max_t, max. rewrite !eval___max_conv. cbv zeta.
    cbn [typeof __max]. rewrite arith_conv_promoted, !wrap_idem.
    rewrite (wrap_id (typeof x)) by apply Wx.
    now rewrite (wrap_id (typeof y)) by apply Wy.
Qed.

(** X11. On side-effect-free operands whose types have one signedness, or
    whose common type is signed, [SIMPLE_MIN(x, y)] delivers the
    mathematical minimum of the two values and leaves the state alone,
    whichever operand of [<] is evaluated first. *)
Theorem SIMPLE_MIN_exact
    (o : eval_order) (x y : expr state) (s : state) :
  side_effect_free x -> side_effect_free y ->
  well_typed x -> well_typed y ->
  sgn (typeof x) = sgn (typeof y) \/
  sgn (typeof (SIMPLE_MIN o x y)) = Signed ->
  eval (SIMPLE_MIN o x y) s = (s, Z.min (snd (eval x s)) (snd (eval y s))).
Proof.
  intros Hx Hy Wx Wy Hs.
  rewrite eval_SIMPLE_MIN_pure by assumption. cbv zeta.
  unfold c_cond, c_lt; cbn [ty val].
  rewrite <- ltb_min.
  assert (Ex : wrap (arith_conv (typeof x) (typeof y)) (snd (eval x s)) =
               snd (eval x s))
    by (apply wrap_id, common_range_l; [exact Hs | apply Wx]).
  assert (Ey : wrap (arith_conv (typeof x) (typeof y)) (snd (eval y s)) =
               snd (eval y s))
    by (apply wrap_id, common_range_r; [exact Hs | apply Wy]).
  rewrite Ex, Ey.
  destruct (_ <? _); cbn [val]; now rewrite ?Ex, ?Ey.
Qed.

End Exact.

Section Effects.

Context {state : Type}.

(** X5. In an invocation of [min_t] or [max_t] the side effect of each
    operand occurs exactly once, the first operand's before the second's,
    for every target type and whatever the operands deliver. *)
Theorem min_t_max_t_single_evaluation
    (t : ctype) (x y : expr state) (log : list operand) (s : state) :
  let ox := observed OpX x in
  let oy := observed OpY y in
  let after_min := fst (eval (min_t t ox oy) (log, s)) in
  let after_max := fst (eval (max_t t ox oy) (log, s)) in
  (fst after_min = OpY :: OpX :: log /\
   occurrences OpX (fst after_min) = S (occurrences OpX log) /\
   occurrences OpY (fst after_min) = S (occurrences OpY log) /\
   snd after_min = fst (eval y (fst (eval x s)))) /\
  (fst after_max = OpY :: OpX :: log /\
   occurrences OpX (fst after_max) = S (occurrences OpX log) /\
   occurrences OpY (fst after_max) = S (occurrences OpY log) /\
   snd after_max = fst (eval y (fst (eval x s)))).
Proof.
  intros ox oy after_min after_max.
  assert (Hmin : after_min =
                 (OpY :: OpX :: log, fst (eval y (fst (eval x s))))).
  { subst after_min ox oy. rewrite eval_min_t. cbn [fst].
    rewrite eval_observed; cbn [fst]. now rewrite eval_observed. }
  assert (Hmax : after_max =
                 (OpY :: OpX :: log, fst (eval y (fst (eval x s))))).
  { subst after_max ox oy. rewrite eval_max_t. cbn [fst].
    rewrite eval_observed; cbn [fst]. now rewrite eval_observed. }
  rewrite Hmin, Hmax; cbn [fst snd].
  repeat split.
Qed.

End Effects.

Section Nesting.

Context {state : Type}.

(** An invocation on operands of type [t] has the promoted type, and may
    itself be an operand next to operands of type [t]. *)
Lemma family_type (t a b : ctype) :
  a = t \/ a = promote t -> b = t \/ b = promote t ->
  arith_conv a b = promote t.
Proof.
  intros [-> | ->] [-> | ->]; destruct t as [[|] [| | | |]]; reflexivity.
Qed.

Lemma family_range (t a : ctype) (v : Z) :
  a = t \/ a = promote t -> in_range a v -> in_range (promote t) v.
Proof. intros [-> | ->]; [apply promote_in_range | trivial]. Qed.

Lemma eval_min_family (t : ctype) (x y : expr state) (s : state) :
  well_typed x -> well_typed y ->
  typeof x = t \/ typeof x = promote t ->
  typeof y = t \/ typeof y = promote t ->
  eval (min x y) s =
  (fst (eval y (fst (eval x s))),
   Z.min (snd (eval x s)) (snd (eval y (fst (eval x s))))).
Proof.
  intros Wx Wy Tx Ty.
  apply eval_min_exact; trivial;
    unfold min; cbn [typeof __min]; rewrite (family_type t) by assumption.
  - apply (family_range t (typeof x)); [exact Tx | apply Wx].
  - apply (family_range t (typeof y)); [exact Ty | apply Wy].
Qed.

Lemma eval_max_family (t : ctype) (x y : expr state) (s : state) :
  well_typed x -> well_typed y ->
  typeof x = t \/ typeof x = promote t ->
  typeof y = t \/ typeof y = promote t ->
  eval (max x y) s =
  (fst (eval y (fst (eval x s))),
   Z.max (snd (eval x s)) (snd (eval y (fst (eval x s))))).
Proof.
  intros Wx Wy Tx Ty.
  apply eval_max_exact; trivial;
    unfold max; cbn [typeof __max]; rewrite (family_type t) by assumption.
  - apply (family_range t (typeof x)); [exact Tx | apply Wx].
  - apply (family_range t (typeof y)); [exact Ty | apply Wy].
Qed.

Lemma typeof_min_family (t : ctype) (x y : expr state) :
  typeof x = t -> typeof y = t ->
  typeof (min x y) = t \/ typeof (min x y) = promote t.
Proof.
  intros Tx Ty. right. unfold min; cbn [typeof __min].
  rewrite Tx, Ty. apply arith_conv_same.
Qed.

Lemma typeof_max_family (t : ctype) (x y : expr state) :
  typeof x = t -> typeof y = t ->
  typeof (max x y) = t \/ typeof (max x y) = promote t.
Proof.
  intros Tx Ty. right. unfold max; cbn [typeof __max].
  rewrite Tx, Ty. apply arith_conv_same.
Qed.

(** X8. Nested invocations on three well-typed operands of one type:
    [min(min(x, y), z)] and [min(x, min(y, z))] evaluate [x], [y] and [z]
    once each, in that order, and both deliver the least of the three
    values; likewise [max] and the greatest. *)
Theorem min_max_nested (x y z : expr state) (s : state) :
  well_typed x -> well_typed y -> well_typed z ->
  typeof x = typeof y -> typeof y = typeof z ->
  let r1 := eval x s in
  let r2 := eval y (fst r1) in
  let r3 := eval z (fst r2) in
  (eval (min (min x y) z) s =
     (fst r3, Z.min (snd r1) (Z.min (snd r2) (snd r3))) /\
   eval (min x (min y z)) s =
     (fst r3, Z.min (snd r1) (Z.min (snd r2) (snd r3)))) /\
  (eval (max (max x y) z) s =
     (fst r3, Z.max (snd r1) (Z.max (snd r2) (snd r3))) /\
   eval (max x (max y z)) s =
     (fst r3, Z.max (snd r1) (Z.max (snd r2) (snd r3)))).
Proof.
  intros Wx Wy Wz Txy Tyz. cbv zeta.
  set (t := typeof z).
  assert (Tx : typeof x = t) by (subst t; congruence).
  assert (Ty : typeof y = t) by (subst t; congruence).
  assert (Tz : typeof z = t) by reflexivity.
  split; split.
  - rewrite (eval_min_family t (min x y) z);
      auto using typeof_min_family; [| apply min_well_typed].
    rewrite (eval_min_family t x y) by auto. cbn [fst snd].
    now rewrite Z.min_assoc.
  - rewrite (eval_min_family t x (min y z));
      auto using typeof_min_family; [| apply min_well_typed].
    now rewrite (eval_min_family t y z) by auto.
  - rewrite (eval_max_family t (max x y) z);
      auto using typeof_max_family; [| apply max_well_typed].
    rewrite (eval_max_family t x y) by auto. cbn [fst snd].
    now rewrite Z.max_assoc.
  - rewrite (eval_max_family t x (max y z));
      auto using typeof_max_family; [| apply max_well_typed].
    now rewrite (eval_max_family t y z) by auto.
Qed.

(** X9. Clamping with the two macros, on three well-typed operands of one
    type: [min(max(v, lo), hi)] evaluates [v], [lo] and [hi] once each, in
    that order; when [lo <= hi] the result lies between [lo] and [hi], and
    it is [v] when [v] already lies between them. *)
Theorem min_of_max_clamps (v lo hi : expr state) (s : state) :
  well_typed v -> well_typed lo -> well_typed hi ->
  typeof v = typeof lo -> typeof lo = typeof hi ->
  let r1 := eval v s in
  let r2 := eval lo (fst r1) in
  let r3 := eval hi (fst r2) in
  let r := eval (min (max v lo) hi) s in
  r = (fst r3, Z.min (Z.max (snd r1) (snd r2)) (snd r3)) /\
  (snd r2 <= snd r3 -> snd r2 <= snd r <= snd r3) /\
  (snd r2 <= snd r1 <= snd r3 -> snd r = snd r1).
Proof.
  intros Wv Wlo Whi T1 T2. cbv zeta.
  set (t := typeof hi).
  assert (Tv : typeof v = t) by (subst t; congruence).
  assert (Tlo : typeof lo = t) by (subst t; congruence).
  assert (Thi : typeof hi = t) by reflexivity.
  rewrite (eval_min_family t (max v lo) hi);
    auto using typeof_max_family; [| apply max_well_typed].
  rewrite (eval_max_family t v lo) by auto. cbn [fst snd].
  split; [reflexivity |]. split; lia.
Qed.

(** X12. The result type of [min], [max] and [SIMPLE_MIN] is never
    narrower than [int] nor than either operand type; on two operands of
    one type it is that type when the type has at least the rank of [int],
    and [int] when the type is an 8-bit or 16-bit one. *)
Theorem result_type_promoted
    (o : eval_order) (x y : expr state) :
  (typeof (max x y) = typeof (min x y) /\
   typeof (SIMPLE_MIN o x y) = typeof (min x y)) /\
  (rank_ord Int <= rank_ord (rank (typeof (min x y))) /\
   width (typeof x) <= width (typeof (min x y)) /\
   width (typeof y) <= width (typeof (min x y))) /\
  (typeof x = typeof y ->
   typeof (min x y) =
     if rank_ord (rank (typeof x)) <? rank_ord Int
     then int_t else typeof x).
Proof.
  unfold min, max, SIMPLE_MIN; cbn [typeof __min __max].
  split; [split; reflexivity |].
  split.
  - destruct (typeof x) as [[|] [| | | |]];
      destruct (typeof y) as [[|] [| | | |]];
      vm_compute; repeat split; discriminate.
  - intros <-. destruct (typeof x) as [[|] [| | | |]]; reflexivity.
Qed.

End Nesting.

(** ** The laws at concrete operands *)

Lemma min_max_exact_witness :
  eval (min (lit (state := unit) s16 (-7)) (lit s64 3)) tt = (tt, -7) /\
  eval (max (lit (state := unit) s16 (-7)) (lit s64 3)) tt = (tt, 3).
Proof.
  apply (@min_max_exact unit (lit s16 (-7)) (lit s64 3) tt);
    [lit_ok | lit_ok | left; reflexivity].
Defined.

Lemma min_max_nonnegative_witness :
  eval (min (lit (state := unit) s32 4) (lit u64 9)) tt = (tt, 4) /\
  eval (max (lit (state := unit) s32 4) (lit u64 9)) tt = (tt, 9).
Proof.
  apply (@min_max_nonnegative unit (lit s32 4) (lit u64 9) tt);
    [lit_ok | lit_ok | cbn; lia | cbn; lia].
Defined.

Lemma max_signed_unsigned_witness :
  in_range s32 (-1) /\ in_range u32 7 /\
  eval (max (lit (state := unit) s32 (-1)) (lit u32 7)) tt
    = (tt, 4294967295).
Proof.
  assert (Hx : in_range s32 (-1)) by range.
  assert (Hy : in_range u32 7) by range.
  split; [exact Hx |]. split; [exact Hy |].
  destruct (@max_signed_unsigned unit s32 u32 (-1) 7 tt
              eq_refl eq_refl eq_refl Hx eq_refl Hy) as (Hwide & _).
  destruct Hwide as (_ & _ & He & _); [vm_compute; discriminate |].
  exact He.
Defined.

Lemma min_max_commute_witness :
  eval (min (lit (state := unit) s32 (-2)) (lit u32 7)) tt =
  eval (min (lit (state := unit) u32 7) (lit s32 (-2))) tt.
Proof.
  apply (@min_max_commute unit (lit s32 (-2)) (lit u32 7) tt); lit_ok.
Defined.

Lemma min_t_max_t_exact_witness :
  eval (min_t s32 (lit (state := unit) s64 (-5)) (lit u8 9)) tt = (tt, -5) /\
  eval (max_t s32 (lit (state := unit) s64 (-5)) (lit u8 9)) tt = (tt, 9).
Proof.
  apply (@min_t_max_t_exact unit s32 (lit s64 (-5)) (lit u8 9) tt);
    cbn [lit eval ret fst snd]; range.
Defined.

Lemma min_max_as_min_t_max_t_witness :
  eval (min_t u32 (lit (state := unit) s32 (-2)) (lit u32 7)) tt =
  eval (min (lit (state := unit) s32 (-2)) (lit u32 7)) tt.
Proof.
  apply (@min_max_as_min_t_max_t unit (lit s32 (-2)) (lit u32 7) tt);
    lit_ok.
Defined.

Lemma SIMPLE_MIN_exact_witness :
  eval (SIMPLE_MIN LeftToRight (lit (state := unit) u8 200) (lit s16 (-1))) tt
    = (tt, -1).
Proof.
  apply (@SIMPLE_MIN_exact unit LeftToRight (lit u8 200) (lit s16 (-1)) tt);
    try lit_ok.
  right. reflexivity.
Defined.

Lemma min_max_nested_witness :
  eval (min (min (lit (state := unit) u16 3) (lit u16 1)) (lit u16 2)) tt
    = (tt, 1) /\
  eval (min (lit (state := unit) u16 3) (min (lit u16 1) (lit u16 2))) tt
    = (tt, 1).
Proof.
  apply (@min_max_nested unit (lit u16 3) (lit u16 1) (lit u16 2) tt);
    try reflexivity; lit_ok.
Defined.

Lemma result_type_promoted_witness :
  typeof (min (lit (state := unit) u8 3) (lit u8 5)) = int_t.
Proof.
  apply (@result_type_promoted unit LeftToRight (lit u8 3) (lit u8 5)).
  reflexivity.
Defined.

Lemma min_of_max_clamps_witness :
  eval (min (max (lit (state := unit) s32 (-9)) (lit s32 0)) (lit s32 255)) tt
    = (tt, 0).
Proof.
  apply (@min_of_max_clamps unit (lit s32 (-9)) (lit s32 0) (lit s32 255) tt);
    try reflexivity; lit_ok.
Defined.

End UtilsLaws.
